(** * The local-files navigation pane of the Markdown viewer

    A shallow embedding of
    [textual_markdown_viewer/widgets/navigation_panes/local_files.py]:
    the entry filter [FilteredDirectoryTree.filter_paths] and the pane
    [LocalFiles] ([compose], [chdir], [set_focus_within], the [Goto]
    message and [on_directory_tree_file_selected]).

    What the module imports and does not define is kept abstract or
    modelled after the behaviour of the library it comes from:
    - [pathlib.Path] (POSIX flavour): a root and a list of components;
    - [Path.is_dir], [Path.is_file]: answers derived from one [stat]
      oracle, which may raise;
    - [maybe_markdown] (from [...utility]): an oracle, which may raise;
    - [os.getenv]: a lookup in an environment;
    - the widget toolkit: the pane's list of mounted children, the
      focused widget, the focus request that is queued and not yet
      carried out, and the queue of posted messages. *)

From Stdlib Require Import Ascii String.
From stdpp Require Import base option list.

Local Open Scope string_scope.

(** ** Exceptions and outcomes *)

Inductive Exn : Type :=
| OSError (errno : nat)   (* raised by a filesystem query *)
| NoMatches               (* raised by [query_one] when nothing matches *)
| OtherError (what : string).

Inductive Outcome (A : Type) : Type :=
| Ok (a : A)
| Raised (e : Exn).
Arguments Ok {A} a.
Arguments Raised {A} e.

(** ** pathlib.Path, POSIX flavour *)

Module Pathlib.

(** A path once parsed: [root] is the empty string, one slash or two
    slashes; [parts] are the components after the root. *)
Record Path : Type := mkPath { root : string; parts : list string }.

Definition sep : ascii := "/"%char.

(** [s.split("/")] *)
Fixpoint split (s : string) : list string :=
  match s with
  | EmptyString => [EmptyString]
  | String c r =>
      if Ascii.eqb c sep then EmptyString :: split r
      else match split r with
           | [] => [String c EmptyString]
           | h :: t => String c h :: t
           end
  end.

(** Number of separators the string starts with. *)
Fixpoint leading_seps (s : string) : nat :=
  match s with
  | String c r => if Ascii.eqb c sep then S (leading_seps r) else 0
  | EmptyString => 0
  end.

(** The root of a POSIX path: exactly two leading slashes are kept,
    any other positive number collapses to one. *)
Definition splitroot (s : string) : string :=
  match leading_seps s with
  | 0 => EmptyString
  | 2 => "//"
  | _ => "/"
  end.

Definition keep_part (x : string) : bool :=
  negb (String.eqb x EmptyString) && negb (String.eqb x ".").

(** [Path(s)] for a string [s]: empty and [.] components are dropped. *)
Definition of_str (s : string) : Path :=
  {| root := splitroot s; parts := List.filter keep_part (split s) |}.

Fixpoint join (xs : list string) : string :=
  match xs with
  | [] => EmptyString
  | [x] => x
  | x :: rest => x ++ "/" ++ join rest
  end.

(** [str(p)] *)
Definition to_str (p : Path) : string :=
  match root p, parts p with
  | EmptyString, [] => "."
  | r, xs => r ++ join xs
  end.

(** [p.name]: the final component, empty when there is none. *)
Definition name (p : Path) : string := List.last (parts p) EmptyString.

(** [p / x] for a single component [x]: the entry [x] of directory [p]. *)
Definition joinpath (p : Path) (x : string) : Path :=
  {| root := root p; parts := parts p ++ [x] |}.

(** What the [Path] constructor accepts: a string or a path. *)
Inductive PathLike : Type :=
| PStr (s : string)
| PPath (p : Path).

(** [Path(x)] *)
Definition Path_ (x : PathLike) : Path :=
  match x with
  | PStr s => of_str s
  | PPath p => p
  end.

End Pathlib.
Import Pathlib.

(** [s.startswith(prefix)] *)
Definition startswith (s prefix : string) : bool := String.prefix prefix s.

(** ** The filesystem queries and the Markdown-likeness check *)

(** What [stat] finds at a path, symbolic links followed.  [Missing]
    stands for every error [is_dir] and [is_file] swallow (no such
    entry, broken link, ...). *)
Inductive Kind : Type := Directory | RegularFile | Special | Missing.

(** The external calls the filter makes, in the order it makes them. *)
Inductive Call : Type :=
| CallIsDir (p : Path)
| CallIsFile (p : Path)
| CallMaybeMarkdown (p : Path).

(** The path a call is made on. *)
Definition call_path (c : Call) : Path :=
  match c with
  | CallIsDir p | CallIsFile p | CallMaybeMarkdown p => p
  end.

(** A computation that may raise and records its external calls. *)
Definition M (A : Type) : Type := (Outcome A * list Call)%type.

Definition outcome {A} (m : M A) : Outcome A := fst m.
Definition calls {A} (m : M A) : list Call := snd m.

#[export] Instance M_ret : MRet M := fun A a => (Ok a, []).
#[export] Instance M_bind : MBind M := fun A B f m =>
  match m with
  | (Ok a, t) => let '(r, t') := f a in (r, (t ++ t')%list)
  | (Raised e, t) => (Raised e, t)
  end.

(** Python's short-circuit [a and b] and [a or b] on booleans. *)
Definition and_then (a b : M bool) : M bool :=
  x ← a; if x : bool then b else mret false.
Definition or_else (a b : M bool) : M bool :=
  x ← a; if x : bool then mret true else b.

(** What the filter calls and the module does not define: [os.stat] as
    the two queries of [pathlib] see it, and [maybe_markdown] of the
    utility module. *)
Class Externals : Type := {
  stat : Path -> Outcome Kind;
  maybe_markdown_fn : Path -> Outcome bool
}.

Section EntryFilter.

Context {ext : Externals}.

Definition is_dir (p : Path) : M bool :=
  (match stat p with
   | Ok Directory => Ok true
   | Ok _ => Ok false
   | Raised e => Raised e
   end, [CallIsDir p]).

Definition is_file (p : Path) : M bool :=
  (match stat p with
   | Ok RegularFile => Ok true
   | Ok _ => Ok false
   | Raised e => Raised e
   end, [CallIsFile p]).

Definition maybe_markdown (p : Path) : M bool :=
  (maybe_markdown_fn p, [CallMaybeMarkdown p]).

(** [path.name.startswith(".")] *)
Definition hidden (p : Path) : bool := startswith (name p) ".".

(** The condition of the comprehension,
    [not path.name.startswith(".") and path.is_dir()
     or (path.is_file() and maybe_markdown(path))],
    which Python reads as [(not h and d) or (f and m)]. *)
Definition keep (p : Path) : M bool :=
  or_else (and_then (mret (negb (hidden p))) (is_dir p))
          (and_then (is_file p) (maybe_markdown p)).

(** [[path for path in paths if ...]] *)
Fixpoint filter_paths (paths : list Path) : M (list Path) :=
  match paths with
  | [] => mret []
  | p :: rest =>
      b ← keep p;
      out ← filter_paths rest;
      mret (if b : bool then p :: out else out)
  end.

(** A path is error free when the calls the condition makes on it all
    return: [stat] answers, and so does the Markdown check when the
    path is a regular file (the only case in which it is called). *)
Definition error_free (p : Path) : Prop :=
  (exists k, stat p = Ok k) /\
  (stat p = Ok RegularFile -> exists b, maybe_markdown_fn p = Ok b).

(** [error_free], decided. *)
Definition error_freeb (p : Path) : bool :=
  match stat p with
  | Ok RegularFile =>
      match maybe_markdown_fn p with Ok _ => true | Raised _ => false end
  | Ok _ => true
  | Raised _ => false
  end.

(** The value of the condition on an error-free path. *)
Definition visible (p : Path) : bool :=
  match stat p with
  | Ok Directory => negb (hidden p)
  | Ok RegularFile =>
      match maybe_markdown_fn p with Ok b => b | Raised _ => false end
  | _ => false
  end.

End EntryFilter.

(** ** The widget toolkit, as far as the pane uses it *)

#[export] Instance Outcome_ret : MRet Outcome := fun A a => Ok a.
#[export] Instance Outcome_bind : MBind Outcome := fun A B f m =>
  match m with
  | Ok a => f a
  | Raised e => Raised e
  end.

Module Textual.

(** The two widget classes the module names. *)
Inductive WidgetClass : Type := DirectoryTree | FilteredDirectoryTree.

(** [issubclass(c, d)]: [FilteredDirectoryTree(DirectoryTree)]. *)
Definition issubclass (c d : WidgetClass) : bool :=
  match c, d with
  | FilteredDirectoryTree, _ => true
  | DirectoryTree, DirectoryTree => true
  | DirectoryTree, FilteredDirectoryTree => false
  end.

(** A widget object: [wid] is its identity, [wpath] the argument its
    constructor was given. *)
Record Widget : Type :=
  mkWidget { wid : nat; wclass : WidgetClass; wpath : PathLike }.

(** [httpx.URL] *)
Inductive URL : Type := mkURL (text : string).

(** [DirectoryTree.FileSelected]; [ev_stop] is the flag [stop()] sets. *)
Record FileSelected : Type :=
  mkFileSelected { ev_path : PathLike; ev_stop : bool }.

(** [event.stop()] *)
Definition stop (event : FileSelected) : FileSelected :=
  {| ev_path := ev_path event; ev_stop := true |}.

End Textual.
Import Textual.

(** ** The pane *)

(** [location: Path | URL] *)
Inductive Location : Type :=
| LocPath (p : Path)
| LocURL (u : URL).

(** [LocalFiles.Goto] *)
Inductive Message : Type := Goto (location : Location).

Definition location (m : Message) : Location :=
  match m with Goto l => l end.

(** The pane with the part of the toolkit's state its methods touch:
    the mounted children in order, the widget that has the focus, the
    widget [focus()] was last called on when that request is still to be
    carried out, the messages posted so far, and the identity the next
    constructed widget gets.  [removed] keeps the widgets that were
    removed, as history. *)
Record LocalFiles : Type := mkLocalFiles {
  children : list Widget;
  removed : list Widget;
  focused : option nat;
  focus_pending : option Widget;
  posted : list Message;
  next_wid : nat
}.

(** [os.getenv]: the environment. *)
Definition Environ : Type := string -> option string.

(** [x or default] for an optional string: [None] and the empty string
    are both false. *)
Definition or_str (x : option string) (default : string) : string :=
  match x with
  | Some EmptyString => default
  | Some v => v
  | None => default
  end.

(** Constructing a tree widget: a new object with an identity of its
    own, not mounted yet. *)
Definition new_widget (c : WidgetClass) (arg : PathLike) (s : LocalFiles)
  : Widget * LocalFiles :=
  ({| wid := next_wid s; wclass := c; wpath := arg |},
   {| children := children s; removed := removed s; focused := focused s;
      focus_pending := focus_pending s;
      posted := posted s; next_wid := S (next_wid s) |}).

(** [self.mount(w)] *)
Definition mount (w : Widget) (s : LocalFiles) : LocalFiles :=
  {| children := children s ++ [w]; removed := removed s;
     focused := focused s; focus_pending := focus_pending s;
     posted := posted s; next_wid := next_wid s |}.

(** [self.query_one(c)]: the first child of class [c] or of a subclass;
    [NoMatches] when there is none. *)
Definition query_one (c : WidgetClass) (s : LocalFiles) : Outcome Widget :=
  match List.filter (fun w => issubclass (wclass w) c) (children s) with
  | w :: _ => Ok w
  | [] => Raised NoMatches
  end.

(** [w.remove()]: the widget leaves the pane and loses the focus.  A
    focus request queued for it stays queued. *)
Definition remove (w : Widget) (s : LocalFiles) : LocalFiles :=
  {| children := List.filter (fun x => negb (Nat.eqb (wid x) (wid w))) (children s);
     removed := w :: removed s;
     focused := match focused s with
                | Some i => if Nat.eqb i (wid w) then None else Some i
                | None => None
                end;
     focus_pending := focus_pending s;
     posted := posted s; next_wid := next_wid s |}.

(** [w.focus()]: the toolkit does not move the focus during the call; it
    queues a callback ([call_later]) that will.  When [focus()] returns,
    the focus is where it was.  Of the requests queued the last is kept:
    the loop carries them out in order, and the pane asks for the focus
    on the tree mounted at the time of the call, so that an earlier
    request is for the same tree or for one removed since. *)
Definition focus (w : Widget) (s : LocalFiles) : LocalFiles :=
  {| children := children s; removed := removed s;
     focused := focused s; focus_pending := Some w;
     posted := posted s; next_wid := next_wid s |}.

(** Whether the widget object [w] is mounted in the pane. *)
Definition is_mounted (w : Widget) (s : LocalFiles) : bool :=
  existsb (fun x => Nat.eqb (wid x) (wid w)) (children s).

(** The toolkit's message loop carrying out the queued focus request:
    the callback calls [w.screen.set_focus(w)], which gives [w] the
    focus; a widget that was removed meanwhile has no screen, and the
    callback does nothing for it ([NoScreen] is caught). *)
Definition idle (s : LocalFiles) : LocalFiles :=
  match focus_pending s with
  | Some w =>
      {| children := children s; removed := removed s;
         focused := if is_mounted w s then Some (wid w) else focused s;
         focus_pending := None;
         posted := posted s; next_wid := next_wid s |}
  | None => s
  end.

(** [self.post_message(m)] *)
Definition post_message (m : Message) (s : LocalFiles) : LocalFiles :=
  {| children := children s; removed := removed s; focused := focused s;
     focus_pending := focus_pending s;
     posted := posted s ++ [m]; next_wid := next_wid s |}.

(** [LocalFiles.__init__]: a pane with nothing mounted. *)
Definition LocalFiles_init : LocalFiles :=
  {| children := []; removed := []; focused := None; focus_pending := None;
     posted := []; next_wid := 0 |}.

(** [compose]: [yield FilteredDirectoryTree(getenv("HOME") or ".")].
    The toolkit mounts what [compose] yields. *)
Definition compose (env : Environ) (s : LocalFiles) : LocalFiles :=
  let '(w, s1) :=
    new_widget FilteredDirectoryTree (PStr (or_str (env "HOME") ".")) s in
  mount w s1.

(** The pane once created. *)
Definition created (env : Environ) : LocalFiles := compose env LocalFiles_init.

(** [chdir], first statement:
    [await self.query_one(FilteredDirectoryTree).remove()]. *)
Definition chdir_remove (s : LocalFiles) : Outcome LocalFiles :=
  w ← query_one FilteredDirectoryTree s; mret (remove w s).

(** [chdir], second statement:
    [await self.mount(FilteredDirectoryTree(path))]. *)
Definition chdir_mount (path : Path) (s : LocalFiles) : Outcome LocalFiles :=
  let '(w, s1) := new_widget FilteredDirectoryTree (PPath path) s in
  mret (mount w s1).

(** [chdir], run without another handler in between its two awaits. *)
Definition chdir (path : Path) (s : LocalFiles) : Outcome LocalFiles :=
  s1 ← chdir_remove s; chdir_mount path s1.

(** [set_focus_within]: [self.query_one(DirectoryTree).focus()]. *)
Definition set_focus_within (s : LocalFiles) : Outcome LocalFiles :=
  w ← query_one DirectoryTree s; mret (focus w s).

(** [on_directory_tree_file_selected]: the event after [stop()] and the
    pane after [post_message(Goto(Path(event.path)))]. *)
Definition on_directory_tree_file_selected
  (event : FileSelected) (s : LocalFiles) : FileSelected * LocalFiles :=
  (stop event, post_message (Goto (LocPath (Path_ (ev_path event)))) s).

(** The messages a run of the handler added to the queue. *)
Definition emitted (event : FileSelected) (s : LocalFiles) : list Message :=
  drop (length (posted s))
       (posted (snd (on_directory_tree_file_selected event s))).

(** The states of a pane: created, then any sequence of completed
    method calls, with the message loop running between them or not. *)
Inductive reachable (env : Environ) : LocalFiles -> Prop :=
| reach_created : reachable env (created env)
| reach_chdir s path s' :
    reachable env s -> chdir path s = Ok s' -> reachable env s'
| reach_focus s s' :
    reachable env s -> set_focus_within s = Ok s' -> reachable env s'
| reach_selected s event :
    reachable env s ->
    reachable env (snd (on_directory_tree_file_selected event s))
| reach_idle s :
    reachable env s -> reachable env (idle s).

(** The tree-mounted state: one child, a filtered tree, newer than every
    widget removed before it. *)
Definition tree_mounted (s : LocalFiles) : Prop :=
  exists w, children s = [w] /\ wclass w = FilteredDirectoryTree /\
            wid w < next_wid s /\
            Forall (fun r => wid r < wid w) (removed s).

(** ** Sequences of method calls *)

(** What happens to a pane: the application re-roots it or gives it the
    focus, its tree delivers a file selection, or the message loop runs. *)
Inductive Op : Type :=
| OpChdir (path : Path)
| OpFocus
| OpSelect (event : FileSelected)
| OpIdle.

Definition step (op : Op) (s : LocalFiles) : Outcome LocalFiles :=
  match op with
  | OpChdir path => chdir path s
  | OpFocus => set_focus_within s
  | OpSelect event => mret (snd (on_directory_tree_file_selected event s))
  | OpIdle => mret (idle s)
  end.

(** The calls in order; the first one that raises ends the run. *)
Fixpoint run (ops : list Op) (s : LocalFiles) : Outcome LocalFiles :=
  match ops with
  | [] => mret s
  | op :: rest => s' ← step op s; run rest s'
  end.

(** The messages the selections of a run ask for, in order. *)
Fixpoint selections (ops : list Op) : list Message :=
  match ops with
  | [] => []
  | OpSelect event :: rest =>
      Goto (LocPath (Path_ (ev_path event))) :: selections rest
  | _ :: rest => selections rest
  end.

(** The argument of the last re-rooting of a run, [start] when there is
    none. *)
Fixpoint last_root (ops : list Op) (start : PathLike) : PathLike :=
  match ops with
  | [] => start
  | OpChdir path :: rest => last_root rest (PPath path)
  | _ :: rest => last_root rest start
  end.

(** The number of re-rootings of a run. *)
Fixpoint chdirs (ops : list Op) : nat :=
  match ops with
  | [] => 0
  | OpChdir _ :: rest => S (chdirs rest)
  | _ :: rest => chdirs rest
  end.

(** ** Sample inputs *)

Module Sample.

(** A directory [/docs] holding the directories [guide] and [.git] and
    the files [notes.md], [.notes.md] and [todo.txt]; [locked] cannot
    be examined. *)
Definition names_of (xs : list string) (p : Path) : bool :=
  existsb (String.eqb (name p)) xs.

Definition sample_stat (p : Path) : Outcome Kind :=
  if names_of ["docs"; "guide"; ".git"] p then Ok Directory
  else if names_of ["notes.md"; ".notes.md"; "todo.txt"] p then Ok RegularFile
  else if names_of ["locked"] p then Raised (OSError 13)
  else Ok Missing.

(** A check that accepts the names ending in [.md], and also [.git]. *)
Definition sample_markdown (p : Path) : Outcome bool :=
  Ok (names_of ["notes.md"; ".notes.md"; ".git"] p).

Definition ext : Externals :=
  {| stat := sample_stat; maybe_markdown_fn := sample_markdown |}.

Definition entries : list Path :=
  map of_str ["/docs/guide"; "/docs/.git"; "/docs/notes.md";
              "/docs/.notes.md"; "/docs/todo.txt"].

Definition home_env (home : option string) : Environ :=
  fun k => if String.eqb k "HOME" then home else None.

(** A pane created with [HOME=/home/user], and the same pane after
    [chdir("/docs")]. *)
Definition env : Environ := home_env (Some "/home/user").

Definition pane : LocalFiles := created env.

(** The same pane after [set_focus_within()]: the request is queued. *)
Definition pane_focused : LocalFiles :=
  {| children := [{| wid := 0; wclass := FilteredDirectoryTree;
                     wpath := PStr "/home/user" |}];
     removed := []; focused := None;
     focus_pending := Some {| wid := 0; wclass := FilteredDirectoryTree;
                              wpath := PStr "/home/user" |};
     posted := []; next_wid := 1 |}.

Definition pane_docs : LocalFiles :=
  {| children := [{| wid := 1; wclass := FilteredDirectoryTree;
                     wpath := PPath (of_str "/docs") |}];
     removed := [{| wid := 0; wclass := FilteredDirectoryTree;
                    wpath := PStr "/home/user" |}];
     focused := None; focus_pending := None; posted := []; next_wid := 2 |}.

(** The selection of [notes.md] in a tree rooted at [/docs]. *)
Definition select_notes : FileSelected :=
  {| ev_path := PPath (joinpath (of_str "/docs") "notes.md");
     ev_stop := false |}.

End Sample.

(** * Properties *)

(** ** The entry filter *)

Local Open Scope list_scope.

Section EntryFilterFacts.

Context {ext : Externals}.

Lemma keep_eq (p : Path) :
  keep p =
  match stat p with
  | Raised e =>
      (Raised e, if hidden p then [CallIsFile p] else [CallIsDir p])
  | Ok Directory =>
      if hidden p then (Ok false, [CallIsFile p])
      else (Ok true, [CallIsDir p])
  | Ok RegularFile =>
      (maybe_markdown_fn p,
       if hidden p then [CallIsFile p; CallMaybeMarkdown p]
       else [CallIsDir p; CallIsFile p; CallMaybeMarkdown p])
  | Ok _ =>
      (Ok false,
       if hidden p then [CallIsFile p] else [CallIsDir p; CallIsFile p])
  end.
Proof.
  unfold keep, or_else, and_then, is_dir, is_file, maybe_markdown.
  unfold mbind, mret, M_bind, M_ret.
  destruct (hidden p); simpl; destruct (stat p) as [[]|e]; simpl;
    try reflexivity; destruct (maybe_markdown_fn p); reflexivity.
Qed.

Lemma filter_paths_cons (p : Path) (rest : list Path) :
  filter_paths (p :: rest) =
  match keep p with
  | (Ok b, t) =>
      match filter_paths rest with
      | (Ok out, t') => (Ok (if b then p :: out else out), t ++ t')%list
      | (Raised e, t') => (Raised e, t ++ t')%list
      end
  | (Raised e, t) => (Raised e, t)
  end.
Proof.
  simpl. unfold mbind, mret, M_bind, M_ret.
  destruct (keep p) as [[b|e] t]; [|reflexivity].
  destruct (filter_paths rest) as [[out|e] t']; [|reflexivity].
  by rewrite app_nil_r.
Qed.

Lemma keep_returns (p : Path) :
  error_free p -> outcome (keep p) = Ok (visible p).
Proof.
  intros [[k Hk] Hmm]. rewrite keep_eq. unfold visible. rewrite Hk.
  destruct k; try (by destruct (hidden p)).
  destruct (Hmm Hk) as [b ->]. reflexivity.
Qed.

Lemma keep_raises (p : Path) (b : bool) :
  outcome (keep p) = Ok b -> error_free p.
Proof.
  rewrite keep_eq. unfold error_free.
  destruct (stat p) as [k|e] eqn:Hk; [|discriminate].
  intros H. split; [by eexists|]. intros [= ->]. simpl in H. by eexists.
Qed.

(** The comprehension returns exactly when every path is error free,
    and then it returns the paths on which the condition holds. *)
Lemma filter_paths_returns (paths : list Path) :
  Forall error_free paths ->
  outcome (filter_paths paths) = Ok (List.filter visible paths).
Proof.
  induction 1 as [|p rest Hp _ IH]; [reflexivity|].
  rewrite filter_paths_cons.
  pose proof (keep_returns p Hp) as Hk.
  destruct (keep p) as [[b|e] t]; simpl in Hk; [|discriminate].
  injection Hk as ->.
  destruct (filter_paths rest) as [[out|e] t']; simpl in IH; [|discriminate].
  injection IH as ->. simpl. by destruct (visible p).
Qed.

Lemma filter_paths_returns_inv (paths out : list Path) :
  outcome (filter_paths paths) = Ok out -> Forall error_free paths.
Proof.
  revert out. induction paths as [|p rest IH]; intros out; [constructor|].
  rewrite filter_paths_cons.
  destruct (keep p) as [[b|e] t] eqn:Hk; [|discriminate].
  destruct (filter_paths rest) as [[out'|e] t']; [|discriminate].
  intros _. constructor.
  - apply (keep_raises p b). by rewrite Hk.
  - by apply (IH out').
Qed.

Lemma visible_iff (p : Path) :
  error_free p ->
  visible p = true <->
  (stat p = Ok Directory /\ hidden p = false) \/
  (stat p = Ok RegularFile /\ maybe_markdown_fn p = Ok true).
Proof.
  intros [[k Hk] Hmm]. unfold visible. rewrite Hk.
  destruct k.
  - rewrite negb_true_iff. split; [auto|]. intros [[_ H]|[H _]]; congruence.
  - destruct (Hmm Hk) as [b Hb]. rewrite Hb.
    split; [intros ->; auto|]. intros [[H _]|[_ H]]; congruence.
  - split; [discriminate|]. intros [[H _]|[H _]]; congruence.
  - split; [discriminate|]. intros [[H _]|[H _]]; congruence.
Qed.

(** Every recorded call was made by the condition on some input path. *)
Lemma calls_filter_paths (paths : list Path) (c : Call) :
  c ∈ calls (filter_paths paths) ->
  exists q, q ∈ paths /\ c ∈ calls (keep q).
Proof.
  induction paths as [|p rest IH].
  - simpl. intros H. by apply elem_of_nil in H.
  - rewrite filter_paths_cons.
    destruct (keep p) as [[b|e] t] eqn:Hk.
    + destruct (filter_paths rest) as [[out|e] t']; simpl in *;
        rewrite elem_of_app; (intros [H|H];
          [exists p; rewrite Hk; split; [left|done]
          |destruct (IH H) as (q & Hq & Hc); exists q; split; [by right|done]]).
    + simpl. intros H. exists p. rewrite Hk. split; [left|done].
Qed.

Lemma calls_keep_markdown (p q : Path) :
  CallMaybeMarkdown p ∈ calls (keep q) -> q = p /\ stat p = Ok RegularFile.
Proof.
  rewrite keep_eq.
  destruct (stat q) as [[]|e] eqn:Hk; destruct (hidden q); simpl;
    rewrite ?elem_of_cons, ?elem_of_nil; intros H;
    repeat (destruct H as [H|H]); try discriminate; try done;
    injection H as ->; done.
Qed.


Lemma filter_paths_sublist (paths : list Path) :
  List.filter visible paths `sublist_of` paths.
Proof.
  induction paths as [|p rest IH]; simpl; [constructor|].
  destruct (visible p); by constructor.
Qed.

Lemma filter_paths_elem_of (paths : list Path) (p : Path) :
  p ∈ List.filter visible paths <-> p ∈ paths /\ visible p = true.
Proof. rewrite !list_elem_of_In. apply filter_In. Qed.

(** C2: when the filter returns, an entry of the input is in the output
    exactly when it is a directory whose name does not start with a dot
    or a regular file the Markdown check accepts; so every non-hidden
    directory is kept, and a non-hidden regular file is kept iff the
    Markdown check returns true.  The filter returns whenever no call
    it makes raises. *)
Theorem filter_paths_visibility (paths : list Path) :
  Forall error_free paths ->
  exists out,
    outcome (filter_paths paths) = Ok out /\
    (forall p, p ∈ out <->
       p ∈ paths /\
       ((stat p = Ok Directory /\ hidden p = false) \/
        (stat p = Ok RegularFile /\ maybe_markdown_fn p = Ok true))) /\
    (forall p, p ∈ paths -> stat p = Ok Directory -> hidden p = false ->
       p ∈ out) /\
    (forall p, p ∈ paths -> stat p = Ok RegularFile -> hidden p = false ->
       (p ∈ out <-> maybe_markdown_fn p = Ok true)).
Proof.
  intros Hfree. exists (List.filter visible paths).
  split; [by apply filter_paths_returns|].
  assert (Hin : forall p, p ∈ List.filter visible paths <->
    p ∈ paths /\
    ((stat p = Ok Directory /\ hidden p = false) \/
     (stat p = Ok RegularFile /\ maybe_markdown_fn p = Ok true))).
  { intros p. rewrite filter_paths_elem_of. split.
    - intros [Hp Hv]. split; [done|]. apply visible_iff; [|done].
      rewrite Forall_forall in Hfree. by apply Hfree.
    - intros [Hp Hc]. split; [done|]. apply visible_iff; [|done].
      rewrite Forall_forall in Hfree. by apply Hfree. }
  split; [exact Hin|]. split.
  - intros p Hp Hd Hh. apply Hin. auto.
  - intros p Hp Hf Hh. rewrite Hin. split.
    + intros [_ [[Hd _]|[_ Hm]]]; [congruence|done].
    + intros Hm. auto.
Qed.

(** C6: a regular file whose name begins with a dot and which the
    Markdown check accepts is kept: the hidden-name test guards the
    directory branch only. *)
Theorem filter_paths_keeps_hidden_markdown_file (paths : list Path) (p : Path) :
  Forall error_free paths ->
  p ∈ paths ->
  hidden p = true ->
  stat p = Ok RegularFile ->
  maybe_markdown_fn p = Ok true ->
  exists out, outcome (filter_paths paths) = Ok out /\ p ∈ out.
Proof.
  intros Hfree Hp _ Hf Hm. exists (List.filter visible paths).
  split; [by apply filter_paths_returns|].
  apply filter_paths_elem_of. split; [done|].
  unfold visible. by rewrite Hf, Hm.
Qed.

(** C7: the Markdown check is never called on a directory, whatever the
    run does, and a directory whose name begins with a dot is in no
    output, whatever the Markdown check would answer for it. *)
Theorem filter_paths_directories (paths : list Path) (p : Path) :
  stat p = Ok Directory ->
  (CallMaybeMarkdown p ∉ calls (filter_paths paths)) /\
  (hidden p = true ->
   forall out, outcome (filter_paths paths) = Ok out -> p ∉ out).
Proof.
  intros Hd. split.
  - intros Hc. apply calls_filter_paths in Hc as (q & _ & Hc).
    apply calls_keep_markdown in Hc as [_ Hf]. congruence.
  - intros Hh out Hout Hin.
    pose proof (filter_paths_returns_inv _ _ Hout) as Hfree.
    rewrite (filter_paths_returns _ Hfree) in Hout. injection Hout as <-.
    apply filter_paths_elem_of in Hin as [_ Hv].
    unfold visible in Hv. rewrite Hd, Hh in Hv. discriminate.
Qed.

(** C8: when the filter returns, its output is a subsequence of its
    input: entries of the input, in the input's order.  The filter
    returns whenever no call it makes raises. *)
Theorem filter_paths_subsequence (paths : list Path) :
  Forall error_free paths ->
  exists out,
    outcome (filter_paths paths) = Ok out /\ out `sublist_of` paths.
Proof.
  intros Hfree. exists (List.filter visible paths).
  split; [by apply filter_paths_returns|apply filter_paths_sublist].
Qed.

(** *** Which runs return *)

Lemma error_freeb_true (p : Path) : error_freeb p = true -> error_free p.
Proof.
  unfold error_freeb, error_free.
  destruct (stat p) as [k|e]; [|discriminate].
  intros H. split; [by eexists|]. intros [= ->].
  destruct (maybe_markdown_fn p); [by eexists|discriminate].
Qed.

Lemma Forall_error_free (paths : list Path) :
  forallb error_freeb paths = true -> Forall error_free paths.
Proof.
  induction paths as [|p rest IH]; simpl; [constructor|].
  intros [Hp Hrest]%andb_true_iff.
  constructor; [by apply error_freeb_true|by apply IH].
Qed.

Lemma filter_visible_error_free (paths : list Path) :
  Forall error_free paths -> Forall error_free (List.filter visible paths).
Proof.
  rewrite !Forall_forall. intros H p Hp.
  apply H. rewrite list_elem_of_In in *. by apply filter_In in Hp as [Hp _].
Qed.

Lemma filter_visible_idemp (paths : list Path) :
  List.filter visible (List.filter visible paths) = List.filter visible paths.
Proof.
  induction paths as [|p rest IH]; simpl; [done|].
  destruct (visible p) eqn:Hv; simpl; [|done]. by rewrite Hv, IH.
Qed.

(** X1: the filter returns exactly when no call it makes raises: every
    path can be examined and the Markdown check answers on every regular
    file. *)
Theorem filter_paths_returns_iff_error_free (paths : list Path) :
  (exists out, outcome (filter_paths paths) = Ok out) <->
  Forall error_free paths.
Proof.
  split.
  - intros [out Hout]. by apply (filter_paths_returns_inv paths out).
  - intros Hfree. eexists. by apply filter_paths_returns.
Qed.

(** *** The calls of a run *)

Lemma calls_filter_paths_cons (p : Path) (rest : list Path) (b : bool) :
  outcome (keep p) = Ok b ->
  calls (filter_paths (p :: rest)) =
  (calls (keep p) ++ calls (filter_paths rest))%list.
Proof.
  intros Hk. rewrite filter_paths_cons.
  destruct (keep p) as [[b'|e] t]; [|discriminate].
  by destruct (filter_paths rest) as [[out|e] t'].
Qed.

Lemma calls_keep_path (q : Path) (c : Call) :
  c ∈ calls (keep q) -> call_path c = q.
Proof.
  rewrite keep_eq.
  destruct (stat q) as [[]|e]; destruct (hidden q); simpl;
    rewrite ?elem_of_cons, ?elem_of_nil; intros H;
    repeat (destruct H as [H|H]); try done; by subst c.
Qed.

Lemma calls_keep_is_dir (p q : Path) :
  CallIsDir p ∈ calls (keep q) -> q = p /\ hidden p = false.
Proof.
  rewrite keep_eq.
  destruct (stat q) as [[]|e]; destruct (hidden q) eqn:Hh; simpl;
    rewrite ?elem_of_cons, ?elem_of_nil; intros H;
    repeat (destruct H as [H|H]); try discriminate; try done;
    injection H as ->; done.
Qed.

Lemma calls_keep_is_file (p q : Path) :
  CallIsFile p ∈ calls (keep q) ->
  q = p /\ (hidden p = true \/ stat p <> Ok Directory).
Proof.
  rewrite keep_eq.
  destruct (stat q) as [[]|e] eqn:Hk; destruct (hidden q) eqn:Hh; simpl;
    rewrite ?elem_of_cons, ?elem_of_nil; intros H;
    repeat (destruct H as [H|H]); try discriminate; try done;
    injection H as ->; (split; [done|]); auto; right; congruence.
Qed.

Lemma length_calls_keep (p : Path) : 1 <= length (calls (keep p)) <= 3.
Proof.
  rewrite keep_eq.
  destruct (stat p) as [[]|e]; destruct (hidden p); simpl; lia.
Qed.

Lemma calls_keep_in_run (paths : list Path) (p : Path) (c : Call) :
  Forall error_free paths -> p ∈ paths -> c ∈ calls (keep p) ->
  c ∈ calls (filter_paths paths).
Proof.
  induction 1 as [|q rest Hq Hrest IH]; intros Hp Hc.
  - by apply elem_of_nil in Hp.
  - rewrite (calls_filter_paths_cons q rest _ (keep_returns q Hq)).
    apply elem_of_app. apply elem_of_cons in Hp as [->|Hp]; [by left|].
    right. by apply IH.
Qed.

(** X2: the first call that raises ends the run with its error: the
    paths before it were examined, the paths after it are not touched,
    and nothing is returned. *)
Theorem filter_paths_first_error
    (pre post : list Path) (p : Path) (e : Exn) :
  Forall error_free pre ->
  outcome (keep p) = Raised e ->
  filter_paths (pre ++ p :: post) =
  (Raised e, (calls (filter_paths pre) ++ calls (keep p))%list).
Proof.
  intros Hpre Hp. induction Hpre as [|q pre Hq _ IH].
  - simpl app at 1. rewrite filter_paths_cons.
    destruct (keep p) as [[b|e'] t]; simpl in Hp; [discriminate|].
    by injection Hp as ->.
  - rewrite (calls_filter_paths_cons q pre _ (keep_returns q Hq)).
    change ((q :: pre) ++ p :: post) with (q :: (pre ++ p :: post)).
    rewrite filter_paths_cons, IH.
    pose proof (keep_returns q Hq) as Hk.
    destruct (keep q) as [[b|e'] t]; simpl in Hk; [|discriminate].
    simpl. by rewrite app_assoc.
Qed.

(** X3: filtering a concatenation is filtering its parts in order: the
    outputs and the calls are concatenated, and an error in the first
    part ends the run before the second part is looked at. *)
Theorem filter_paths_app (xs ys : list Path) :
  filter_paths (xs ++ ys) =
  match filter_paths xs with
  | (Ok a, t) =>
      match filter_paths ys with
      | (Ok b, t') => (Ok (a ++ b), t ++ t')%list
      | (Raised e, t') => (Raised e, t ++ t')%list
      end
  | (Raised e, t) => (Raised e, t)
  end.
Proof.
  induction xs as [|p xs IH].
  - simpl. by destruct (filter_paths ys) as [[b|e] t'].
  - change ((p :: xs) ++ ys) with (p :: (xs ++ ys)).
    rewrite !filter_paths_cons, IH.
    destruct (keep p) as [[k|e] t]; [|done].
    destruct (filter_paths xs) as [[a|e] t1]; [|done].
    destruct (filter_paths ys) as [[b|e] t2]; rewrite app_assoc; [|done].
    by destruct k.
Qed.

(** X4: filtering is idempotent: what the filter returned, it returns
    unchanged when given it again. *)
Theorem filter_paths_idempotent (paths out : list Path) :
  outcome (filter_paths paths) = Ok out ->
  outcome (filter_paths out) = Ok out.
Proof.
  intros Hout.
  pose proof (filter_paths_returns_inv _ _ Hout) as Hfree.
  rewrite (filter_paths_returns _ Hfree) in Hout. injection Hout as <-.
  rewrite (filter_paths_returns _ (filter_visible_error_free _ Hfree)).
  by rewrite filter_visible_idemp.
Qed.

(** X5: the filter examines nothing but its input: every call it makes
    is on one of the given paths, and it makes at most three calls for
    each of them. *)
Theorem filter_paths_calls_on_input (paths : list Path) :
  Forall (fun c => call_path c ∈ paths) (calls (filter_paths paths)) /\
  length (calls (filter_paths paths)) <= 3 * length paths.
Proof.
  split.
  - apply Forall_forall. intros c Hc.
    apply calls_filter_paths in Hc as (q & Hq & Hc).
    by rewrite (calls_keep_path q c Hc).
  - induction paths as [|p rest IH]; [simpl; lia|].
    rewrite filter_paths_cons.
    pose proof (length_calls_keep p) as Hp.
    destruct (keep p) as [[b|e] t]; simpl in Hp.
    + destruct (filter_paths rest) as [[out|e] t']; simpl in *;
        rewrite length_app; lia.
    + simpl. lia.
Qed.

(** X6: on one path the condition asks [is_dir], then [is_file], then
    the Markdown check, leaving out what short-circuit evaluation skips;
    it always asks at least one of them. *)
Theorem keep_calls_in_order (p : Path) :
  calls (keep p) `sublist_of`
    [CallIsDir p; CallIsFile p; CallMaybeMarkdown p] /\
  calls (keep p) <> [].
Proof.
  rewrite keep_eq. split.
  - destruct (stat p) as [[]|e]; destruct (hidden p); simpl;
      repeat first [apply sublist_nil | apply sublist_skip | apply sublist_cons].
  - by destruct (stat p) as [[]|e]; destruct (hidden p).
Qed.

(** X7: [is_dir] is never asked about a path whose name begins with a
    dot: the test on the name comes first and decides. *)
Theorem filter_paths_hidden_skips_is_dir (paths : list Path) (p : Path) :
  hidden p = true -> CallIsDir p ∉ calls (filter_paths paths).
Proof.
  intros Hh Hc. apply calls_filter_paths in Hc as (q & _ & Hc).
  apply calls_keep_is_dir in Hc as [_ Hc]. congruence.
Qed.

(** X8: [is_file] is never asked about a directory that is shown: the
    condition is settled once [is_dir] has answered. *)
Theorem filter_paths_shown_directory_skips_is_file
    (paths : list Path) (p : Path) :
  stat p = Ok Directory -> hidden p = false ->
  CallIsFile p ∉ calls (filter_paths paths).
Proof.
  intros Hd Hh Hc. apply calls_filter_paths in Hc as (q & _ & Hc).
  apply calls_keep_is_file in Hc as [_ [Hc|Hc]]; congruence.
Qed.

(** X9: in a run that returns, the Markdown check is called on exactly
    the regular files of the input, hidden or not. *)
Theorem filter_paths_markdown_check_iff_regular_file
    (paths : list Path) (p : Path) :
  Forall error_free paths ->
  CallMaybeMarkdown p ∈ calls (filter_paths paths) <->
  p ∈ paths /\ stat p = Ok RegularFile.
Proof.
  intros Hfree. split.
  - intros Hc. apply calls_filter_paths in Hc as (q & Hq & Hc).
    apply calls_keep_markdown in Hc as [-> Hf]. done.
  - intros [Hp Hf]. apply (calls_keep_in_run paths p); [done..|].
    rewrite keep_eq, Hf. destruct (hidden p); simpl;
      rewrite !elem_of_cons; auto.
Qed.

(** X10: what is neither a directory nor a regular file (a device, a
    socket, a broken link, a path that does not exist) is in no output,
    whatever its name. *)
Theorem filter_paths_drops_special_and_missing
    (paths out : list Path) (p : Path) :
  stat p = Ok Special \/ stat p = Ok Missing ->
  outcome (filter_paths paths) = Ok out ->
  p ∉ out.
Proof.
  intros Hk Hout Hin.
  pose proof (filter_paths_returns_inv _ _ Hout) as Hfree.
  rewrite (filter_paths_returns _ Hfree) in Hout. injection Hout as <-.
  apply filter_paths_elem_of in Hin as [_ Hv].
  unfold visible in Hv. destruct Hk as [Hk|Hk]; rewrite Hk in Hv; discriminate.
Qed.

End EntryFilterFacts.

(** *** The filter on the sample directory *)

(** C1: hidden entries are not always excluded.  On a regular file named
    [.notes.md] that the Markdown check accepts, the filter returns the
    file, although its name begins with a dot; [is_dir] is not asked. *)
Example filter_paths_shows_hidden_markdown_file :
  hidden (of_str "/docs/.notes.md") = true /\
  @stat Sample.ext (of_str "/docs/.notes.md") = Ok RegularFile /\
  @maybe_markdown_fn Sample.ext (of_str "/docs/.notes.md") = Ok true /\
  filter_paths (ext := Sample.ext) [of_str "/docs/.notes.md"] =
    (Ok [of_str "/docs/.notes.md"],
     [CallIsFile (of_str "/docs/.notes.md");
      CallMaybeMarkdown (of_str "/docs/.notes.md")]).
Proof.
  split; [vm_compute; reflexivity|].
  split; [vm_compute; reflexivity|].
  split; vm_compute; reflexivity.
Qed.

Example filter_paths_sample :
  filter_paths (ext := Sample.ext) Sample.entries =
    (Ok (map of_str ["/docs/guide"; "/docs/notes.md"; "/docs/.notes.md"]),
     [CallIsDir (of_str "/docs/guide");
      CallIsFile (of_str "/docs/.git");
      CallIsDir (of_str "/docs/notes.md");
      CallIsFile (of_str "/docs/notes.md");
      CallMaybeMarkdown (of_str "/docs/notes.md");
      CallIsFile (of_str "/docs/.notes.md");
      CallMaybeMarkdown (of_str "/docs/.notes.md");
      CallIsDir (of_str "/docs/todo.txt");
      CallIsFile (of_str "/docs/todo.txt");
      CallMaybeMarkdown (of_str "/docs/todo.txt")]).
Proof. vm_compute. reflexivity. Qed.

Lemma filter_paths_visibility_witness :
  exists out,
    outcome (filter_paths (ext := Sample.ext) Sample.entries) = Ok out /\
    (forall p, p ∈ out <->
       p ∈ Sample.entries /\
       ((@stat Sample.ext p = Ok Directory /\ hidden p = false) \/
        (@stat Sample.ext p = Ok RegularFile /\
         @maybe_markdown_fn Sample.ext p = Ok true))) /\
    (forall p, p ∈ Sample.entries -> @stat Sample.ext p = Ok Directory ->
       hidden p = false -> p ∈ out) /\
    (forall p, p ∈ Sample.entries -> @stat Sample.ext p = Ok RegularFile ->
       hidden p = false ->
       (p ∈ out <-> @maybe_markdown_fn Sample.ext p = Ok true)).
Proof.
  apply (filter_paths_visibility (ext := Sample.ext) Sample.entries).
  apply Forall_error_free. vm_compute. reflexivity.
Defined.

Lemma filter_paths_keeps_hidden_markdown_file_witness :
  exists out,
    outcome (filter_paths (ext := Sample.ext) Sample.entries) = Ok out /\
    of_str "/docs/.notes.md" ∈ out.
Proof.
  apply (filter_paths_keeps_hidden_markdown_file (ext := Sample.ext)
           Sample.entries (of_str "/docs/.notes.md")).
  - apply Forall_error_free. vm_compute. reflexivity.
  - apply (list_elem_of_lookup_2 _ 3). vm_compute. reflexivity.
  - vm_compute. reflexivity.
  - vm_compute. reflexivity.
  - vm_compute. reflexivity.
Defined.

Lemma filter_paths_directories_witness :
  (CallMaybeMarkdown (of_str "/docs/.git")
     ∉ calls (filter_paths (ext := Sample.ext) Sample.entries)) /\
  @maybe_markdown_fn Sample.ext (of_str "/docs/.git") = Ok true /\
  of_str "/docs/.git"
    ∉ map of_str ["/docs/guide"; "/docs/notes.md"; "/docs/.notes.md"].
Proof.
  assert (Hd : @stat Sample.ext (of_str "/docs/.git") = Ok Directory)
    by (vm_compute; reflexivity).
  destruct (filter_paths_directories (ext := Sample.ext) Sample.entries
              (of_str "/docs/.git") Hd) as [Hcalls Hout].
  split; [exact Hcalls|]. split; [vm_compute; reflexivity|].
  apply Hout; vm_compute; reflexivity.
Defined.

Lemma filter_paths_subsequence_witness :
  exists out,
    outcome (filter_paths (ext := Sample.ext) Sample.entries) = Ok out /\
    out `sublist_of` Sample.entries.
Proof.
  apply (filter_paths_subsequence (ext := Sample.ext) Sample.entries).
  apply Forall_error_free. vm_compute. reflexivity.
Defined.

Lemma filter_paths_first_error_witness :
  filter_paths (ext := Sample.ext)
    ([of_str "/docs/guide"] ++ of_str "/docs/locked" :: [of_str "/docs/notes.md"]) =
  (Raised (OSError 13),
   calls (filter_paths (ext := Sample.ext) [of_str "/docs/guide"]) ++
   calls (keep (ext := Sample.ext) (of_str "/docs/locked"))).
Proof.
  apply (filter_paths_first_error (ext := Sample.ext)
           [of_str "/docs/guide"] [of_str "/docs/notes.md"]
           (of_str "/docs/locked") (OSError 13)).
  - apply Forall_error_free. vm_compute. reflexivity.
  - vm_compute. reflexivity.
Defined.

Lemma filter_paths_idempotent_witness :
  outcome (filter_paths (ext := Sample.ext)
             (map of_str ["/docs/guide"; "/docs/notes.md"; "/docs/.notes.md"])) =
  Ok (map of_str ["/docs/guide"; "/docs/notes.md"; "/docs/.notes.md"]).
Proof.
  apply (filter_paths_idempotent (ext := Sample.ext) Sample.entries).
  vm_compute. reflexivity.
Defined.

Lemma filter_paths_hidden_skips_is_dir_witness :
  CallIsDir (of_str "/docs/.git")
    ∉ calls (filter_paths (ext := Sample.ext) Sample.entries).
Proof.
  apply (filter_paths_hidden_skips_is_dir (ext := Sample.ext)).
  vm_compute. reflexivity.
Defined.

Lemma filter_paths_shown_directory_skips_is_file_witness :
  CallIsFile (of_str "/docs/guide")
    ∉ calls (filter_paths (ext := Sample.ext) Sample.entries).
Proof.
  apply (filter_paths_shown_directory_skips_is_file (ext := Sample.ext)).
  - vm_compute. reflexivity.
  - vm_compute. reflexivity.
Defined.

Lemma filter_paths_markdown_check_iff_regular_file_witness :
  CallMaybeMarkdown (of_str "/docs/todo.txt")
    ∈ calls (filter_paths (ext := Sample.ext) Sample.entries) <->
  of_str "/docs/todo.txt" ∈ Sample.entries /\
  @stat Sample.ext (of_str "/docs/todo.txt") = Ok RegularFile.
Proof.
  apply (filter_paths_markdown_check_iff_regular_file (ext := Sample.ext)).
  apply Forall_error_free. vm_compute. reflexivity.
Defined.

Lemma filter_paths_drops_special_and_missing_witness :
  of_str "/docs/ghost" ∉ [of_str "/docs/notes.md"].
Proof.
  apply (filter_paths_drops_special_and_missing (ext := Sample.ext)
           [of_str "/docs/ghost"; of_str "/docs/notes.md"]).
  - right. vm_compute. reflexivity.
  - vm_compute. reflexivity.
Defined.

(** ** The pane *)

(** *** The methods on a pane with one filtered tree *)

Lemma created_eq (env : Environ) :
  created env =
  {| children := [{| wid := 0; wclass := FilteredDirectoryTree;
                     wpath := PStr (or_str (env "HOME") ".") |}];
     removed := []; focused := None; focus_pending := None;
     posted := []; next_wid := 1 |}.
Proof. reflexivity. Qed.

Lemma query_one_single (c : WidgetClass) (s : LocalFiles) (w : Widget) :
  children s = [w] -> wclass w = FilteredDirectoryTree ->
  query_one c s = Ok w.
Proof.
  intros Hc Hw. unfold query_one. rewrite Hc. simpl. rewrite Hw.
  by destruct c.
Qed.

Lemma query_one_none (c : WidgetClass) (s : LocalFiles) :
  children s = [] -> query_one c s = Raised NoMatches.
Proof. intros Hc. unfold query_one. by rewrite Hc. Qed.

Lemma chdir_remove_eq (s : LocalFiles) (w : Widget) :
  children s = [w] -> wclass w = FilteredDirectoryTree ->
  chdir_remove s =
  Ok {| children := []; removed := w :: removed s;
        focused := match focused s with
                   | Some i => if Nat.eqb i (wid w) then None else Some i
                   | None => None
                   end;
        focus_pending := focus_pending s;
        posted := posted s; next_wid := next_wid s |}.
Proof.
  intros Hc Hw. unfold chdir_remove.
  rewrite (query_one_single _ _ _ Hc Hw). simpl. unfold remove.
  rewrite Hc. simpl. by rewrite Nat.eqb_refl.
Qed.

Lemma chdir_eq (path : Path) (s : LocalFiles) (w : Widget) :
  children s = [w] -> wclass w = FilteredDirectoryTree ->
  chdir path s =
  Ok {| children := [{| wid := next_wid s; wclass := FilteredDirectoryTree;
                        wpath := PPath path |}];
        removed := w :: removed s;
        focused := match focused s with
                   | Some i => if Nat.eqb i (wid w) then None else Some i
                   | None => None
                   end;
        focus_pending := focus_pending s;
        posted := posted s; next_wid := S (next_wid s) |}.
Proof.
  intros Hc Hw. unfold chdir. by rewrite (chdir_remove_eq _ _ Hc Hw).
Qed.

Lemma set_focus_within_eq (s : LocalFiles) (w : Widget) :
  children s = [w] -> wclass w = FilteredDirectoryTree ->
  set_focus_within s = Ok (focus w s).
Proof.
  intros Hc Hw. unfold set_focus_within.
  by rewrite (query_one_single _ _ _ Hc Hw).
Qed.

Lemma emitted_eq (event : FileSelected) (s : LocalFiles) :
  emitted event s = [Goto (LocPath (Path_ (ev_path event)))].
Proof. unfold emitted. simpl. apply drop_app_length. Qed.

(** The message loop touches the focus only. *)
Lemma idle_frame (s : LocalFiles) :
  children (idle s) = children s /\ removed (idle s) = removed s /\
  posted (idle s) = posted s /\ next_wid (idle s) = next_wid s.
Proof. unfold idle. by destruct (focus_pending s). Qed.

Lemma is_mounted_single (p w : Widget) (s : LocalFiles) :
  children s = [w] -> is_mounted p s = Nat.eqb (wid w) (wid p).
Proof. intros Hc. unfold is_mounted. rewrite Hc. simpl. apply orb_false_r. Qed.

(** *** What holds in every state of a pane *)

Lemma reachable_tree_mounted (env : Environ) (s : LocalFiles) :
  reachable env s -> tree_mounted s.
Proof.
  induction 1 as [|s path s' _ IH Hch|s s' _ IH Hf|s event _ IH|s _ IH].
  - rewrite created_eq. eexists. split; [reflexivity|]. simpl.
    split; [done|]. split; [lia|constructor].
  - destruct IH as (w & Hc & Hw & Hlt & Hrem).
    rewrite (chdir_eq path s w Hc Hw) in Hch. injection Hch as <-.
    eexists. split; [reflexivity|]. simpl.
    split; [done|]. split; [lia|].
    constructor; [done|]. eapply Forall_impl; [exact Hrem|].
    simpl. intros r Hr. lia.
  - destruct IH as (w & Hc & Hw & Hlt & Hrem).
    rewrite (set_focus_within_eq s w Hc Hw) in Hf. injection Hf as <-.
    by exists w.
  - destruct IH as (w & Hc & Hw & Hlt & Hrem). by exists w.
  - destruct IH as (w & Hc & Hw & Hlt & Hrem).
    destruct (idle_frame s) as (H1 & H2 & _ & H4).
    exists w. by rewrite H1, H2, H4.
Qed.

Lemma reachable_removed_NoDup (env : Environ) (s : LocalFiles) :
  reachable env s -> NoDup (wid <$> removed s).
Proof.
  induction 1 as [|s path s' Hr IH Hch|s s' Hr IH Hf|s event _ IH|s _ IH].
  - constructor.
  - destruct (reachable_tree_mounted env s Hr) as (w & Hc & Hw & Hlt & Hrem).
    rewrite (chdir_eq path s w Hc Hw) in Hch. injection Hch as <-.
    simpl. apply NoDup_cons. split; [|done].
    intros (r & Heq & Hin)%list_elem_of_fmap.
    rewrite Forall_forall in Hrem. specialize (Hrem r Hin). lia.
  - destruct (reachable_tree_mounted env s Hr) as (w & Hc & Hw & Hlt & Hrem).
    rewrite (set_focus_within_eq s w Hc Hw) in Hf. by injection Hf as <-.
  - done.
  - destruct (idle_frame s) as (_ & H2 & _). by rewrite H2.
Qed.

Lemma reachable_focused (env : Environ) (s : LocalFiles) :
  reachable env s ->
  focused s = None \/ exists w, children s = [w] /\ focused s = Some (wid w).
Proof.
  induction 1 as [|s path s' Hr IH Hch|s s' Hr IH Hf|s event _ IH|s Hr IH].
  - by left.
  - destruct (reachable_tree_mounted env s Hr) as (w & Hc & Hw & Hlt & Hrem).
    rewrite (chdir_eq path s w Hc Hw) in Hch. injection Hch as <-.
    left. simpl. destruct IH as [->|(w' & Hc' & ->)]; [done|].
    rewrite Hc in Hc'. injection Hc' as <-. by rewrite Nat.eqb_refl.
  - destruct (reachable_tree_mounted env s Hr) as (w & Hc & Hw & Hlt & Hrem).
    rewrite (set_focus_within_eq s w Hc Hw) in Hf. by injection Hf as <-.
  - done.
  - destruct (reachable_tree_mounted env s Hr) as (w & Hc & _).
    unfold idle. destruct (focus_pending s) as [p|]; [simpl|done].
    rewrite (is_mounted_single p w s Hc).
    destruct (Nat.eqb_spec (wid w) (wid p)) as [Heq|_]; [|done].
    right. exists w. by rewrite Heq.
Qed.

Lemma reachable_not_stale (env : Environ) (s : LocalFiles) (r : Widget) :
  reachable env s -> r ∈ removed s -> focused s <> Some (wid r).
Proof.
  intros Hr Hin.
  destruct (reachable_focused env s Hr) as [->|(w & Hc & ->)]; [done|].
  destruct (reachable_tree_mounted env s Hr) as (w' & Hc' & _ & _ & Hrem).
  rewrite Hc in Hc'. injection Hc' as <-.
  rewrite Forall_forall in Hrem. specialize (Hrem r Hin).
  intros [= Heq]. lia.
Qed.

Lemma chdir_posted (path : Path) (s s' : LocalFiles) :
  chdir path s = Ok s' -> posted s' = posted s.
Proof.
  unfold chdir, chdir_remove.
  destruct (query_one FilteredDirectoryTree s) as [w|e]; [|discriminate].
  simpl. by intros [= <-].
Qed.

Lemma set_focus_within_posted (s s' : LocalFiles) :
  set_focus_within s = Ok s' -> posted s' = posted s.
Proof.
  unfold set_focus_within.
  destruct (query_one DirectoryTree s) as [w|e]; [|discriminate].
  simpl. by intros [= <-].
Qed.

(** *** Runs *)

Lemma run_spec (ops : list Op) (s : LocalFiles) (w : Widget) :
  children s = [w] -> wclass w = FilteredDirectoryTree ->
  exists s' w',
    run ops s = Ok s' /\
    children s' = [w'] /\ wclass w' = FilteredDirectoryTree /\
    wpath w' = last_root ops (wpath w) /\
    posted s' = posted s ++ selections ops /\
    length (removed s') = chdirs ops + length (removed s) /\
    next_wid s' = chdirs ops + next_wid s.
Proof.
  revert s w. induction ops as [|op ops IH]; intros s w Hc Hw.
  - exists s, w. simpl. by rewrite app_nil_r.
  - destruct op as [path| |event|]; simpl.
    + rewrite (chdir_eq path s w Hc Hw). simpl.
      match goal with
      | |- context [run ops ?s1] =>
          destruct (IH s1 _ eq_refl eq_refl)
            as (s' & w' & Hrun & H1 & H2 & H3 & H4 & H5 & H6)
      end.
      exists s', w'. rewrite Hrun. simpl in *.
      repeat (split; [done|]). split; lia.
    + rewrite (set_focus_within_eq s w Hc Hw). simpl.
      destruct (IH (focus w s) w Hc Hw) as (s' & w' & Hrun & H).
      exists s', w'. by rewrite Hrun.
    + destruct (IH (post_message (Goto (LocPath (Path_ (ev_path event)))) s)
                   w Hc Hw)
        as (s' & w' & Hrun & H1 & H2 & H3 & H4 & H5 & H6).
      exists s', w'. rewrite Hrun. simpl in H4.
      repeat (split; [done|]). split; [|done].
      by rewrite H4, <- app_assoc.
    + destruct (idle_frame s) as (F1 & F2 & F3 & F4).
      destruct (IH (idle s) w) as (s' & w' & Hrun & H); [by rewrite F1|done|].
      exists s', w'. by rewrite Hrun, <- F2, <- F3, <- F4.
Qed.

Lemma chdirs_app (a b : list Op) : chdirs (a ++ b) = chdirs a + chdirs b.
Proof.
  induction a as [|op a IH]; [done|]. destruct op; simpl; by rewrite ?IH.
Qed.

Lemma last_root_app (a b : list Op) (start : PathLike) :
  last_root (a ++ b) start = last_root b (last_root a start).
Proof.
  revert start. induction a as [|op a IH]; intros start; [done|].
  destruct op; simpl; apply IH.
Qed.

Lemma last_root_no_chdir (ops : list Op) (start : PathLike) :
  chdirs ops = 0 -> last_root ops start = start.
Proof.
  induction ops as [|op ops IH]; [done|].
  destruct op; simpl; [discriminate|exact IH..].
Qed.

Lemma run_reachable (env : Environ) (ops : list Op) (s s' : LocalFiles) :
  reachable env s -> run ops s = Ok s' -> reachable env s'.
Proof.
  revert s. induction ops as [|op ops IH]; intros s Hr; simpl.
  - by intros [= <-].
  - destruct (step op s) as [s1|e] eqn:Hstep; [|discriminate].
    simpl. apply IH. destruct op as [path| |event|]; simpl in Hstep.
    + by apply (reach_chdir env s path).
    + by apply (reach_focus env s).
    + injection Hstep as <-. by apply reach_selected.
    + injection Hstep as <-. by apply reach_idle.
Qed.

(** The trees are numbered in the order of their construction: a run
    that starts with tree [w], the newest widget, ends with the tree its
    last [chdir] constructed, and has removed the trees before it. *)
Lemma run_tree (ops : list Op) (s : LocalFiles) (w : Widget) :
  children s = [w] -> wclass w = FilteredDirectoryTree ->
  next_wid s = S (wid w) ->
  exists s',
    run ops s = Ok s' /\
    children s' = [{| wid := chdirs ops + wid w;
                      wclass := FilteredDirectoryTree;
                      wpath := last_root ops (wpath w) |}] /\
    wid <$> removed s' = rev (seq (wid w) (chdirs ops)) ++ (wid <$> removed s) /\
    next_wid s' = S (chdirs ops + wid w).
Proof.
  revert s w. induction ops as [|op ops IH]; intros s w Hc Hw Hn.
  - exists s. simpl. split; [done|]. split; [|done].
    rewrite Hc. destruct w as [i c p]. simpl in Hw. by subst c.
  - destruct op as [path| |event|]; simpl.
    + rewrite (chdir_eq path s w Hc Hw). simpl.
      match goal with
      | |- context [run ops ?s1] =>
          destruct (IH s1 _ eq_refl eq_refl eq_refl)
            as (s' & Hrun & H1 & H2 & H3)
      end.
      exists s'. rewrite Hrun. simpl in *. rewrite Hn in *.
      split; [done|].
      replace (S (chdirs ops + wid w)) with (chdirs ops + S (wid w)) by lia.
      split; [done|]. split; [|done].
      by rewrite H2, <- app_assoc.
    + rewrite (set_focus_within_eq s w Hc Hw). simpl.
      destruct (IH (focus w s) w Hc Hw Hn) as (s' & Hrun & H).
      exists s'. by rewrite Hrun.
    + destruct (IH (post_message (Goto (LocPath (Path_ (ev_path event)))) s)
                   w Hc Hw Hn) as (s' & Hrun & H).
      exists s'. by rewrite Hrun.
    + destruct (idle_frame s) as (F1 & F2 & F3 & F4).
      destruct (IH (idle s) w) as (s' & Hrun & H);
        [by rewrite F1|done|by rewrite F4|].
      exists s'. by rewrite Hrun, <- F2.
Qed.

(** *** The specified behaviour of the pane *)

(** C3: the handler of a file selection stops the event and posts
    exactly one [Goto], whose location is the path of the event; nothing
    else of the pane changes.  Selecting [notes.md] in a tree rooted at
    [/docs] posts one [Goto] with location [/docs/notes.md]. *)
Theorem file_selected_posts_one_goto (event : FileSelected) (s : LocalFiles) :
  ev_stop (fst (on_directory_tree_file_selected event s)) = true /\
  emitted event s = [Goto (LocPath (Path_ (ev_path event)))] /\
  posted (snd (on_directory_tree_file_selected event s)) =
    posted s ++ emitted event s /\
  children (snd (on_directory_tree_file_selected event s)) = children s /\
  emitted Sample.select_notes s = [Goto (LocPath (of_str "/docs/notes.md"))] /\
  to_str (of_str "/docs/notes.md") = "/docs/notes.md".
Proof.
  split; [reflexivity|]. split; [apply emitted_eq|].
  split; [by rewrite emitted_eq|]. split; [reflexivity|].
  split; [rewrite emitted_eq|]; vm_compute; reflexivity.
Qed.

(** C4: in every state of a pane, [chdir] returns; the tree that was
    mounted is removed and is no child any more, the only child is a
    tree that did not exist before, a filtered tree constructed with the
    given path, and so exactly one tree is mounted. *)
Theorem chdir_replaces_tree (env : Environ) (s : LocalFiles) (path : Path) :
  reachable env s ->
  exists old new s',
    children s = [old] /\
    chdir path s = Ok s' /\
    children s' = [new] /\
    wclass new = FilteredDirectoryTree /\
    wpath new = PPath path /\
    (old ∉ children s') /\
    old ∈ removed s' /\
    (forall r, r ∈ removed s' -> wid r <> wid new) /\
    length (List.filter (fun w => issubclass (wclass w) DirectoryTree)
                        (children s')) = 1.
Proof.
  intros Hr.
  destruct (reachable_tree_mounted env s Hr) as (w & Hc & Hw & Hlt & Hrem).
  eexists w, _, _. split; [done|]. split; [by apply chdir_eq|]. simpl.
  split; [done|]. split; [done|]. split; [done|].
  split; [|split; [|split]].
  - rewrite list_elem_of_singleton. intros ->. simpl in Hlt. lia.
  - by left.
  - intros r [->|Hin]%elem_of_cons; simpl; [lia|].
    rewrite Forall_forall in Hrem. specialize (Hrem r Hin). lia.
  - done.
Qed.

(** C5: a created pane has exactly one child, a filtered tree; its root
    is the path [HOME] holds when the variable is set, and [.] when it
    is not.  The constructor is given the value of [HOME] itself unless
    that is the empty string, for which it is given [.], the same
    path. *)
Theorem compose_mounts_one_tree (env : Environ) :
  exists w,
    children (created env) = [w] /\
    wclass w = FilteredDirectoryTree /\
    (forall v, env "HOME" = Some v -> Path_ (wpath w) = of_str v) /\
    (forall v, env "HOME" = Some v -> v <> EmptyString -> wpath w = PStr v) /\
    (env "HOME" = None -> wpath w = PStr ".").
Proof.
  rewrite created_eq. eexists. split; [reflexivity|]. simpl.
  split; [done|]. split; [|split].
  - intros v ->. destruct v; [vm_compute|]; reflexivity.
  - intros v -> Hv. by destruct v.
  - by intros ->.
Qed.

(** C9: in every state of a pane, [set_focus_within] returns and asks
    for the focus on the one tree that is mounted: the request it queues
    names that tree, and at its return the focus is still where it was.
    When the message loop runs next, the mounted tree has the focus.
    Whatever happens to the pane after the call (the loop running at
    once or later, [chdir] removing the tree before the request is
    carried out, the loop running between the two statements of that
    [chdir]), the focus is never on a tree that was removed. *)
Theorem set_focus_within_targets_mounted_tree (env : Environ) (s : LocalFiles) :
  reachable env s ->
  exists w s',
    set_focus_within s = Ok s' /\
    children s = [w] /\
    children s' = [w] /\
    focus_pending s' = Some w /\
    focused s' = focused s /\
    focused (idle s') = Some (wid w) /\
    (forall r, r ∈ removed (idle s') -> focused (idle s') <> Some (wid r)) /\
    (forall ops s'', run ops s' = Ok s'' ->
       forall r, r ∈ removed s'' -> focused s'' <> Some (wid r)) /\
    (forall path s1 s2,
       chdir_remove s' = Ok s1 -> chdir_mount path (idle s1) = Ok s2 ->
       forall r, r ∈ removed s2 -> focused s2 <> Some (wid r)).
Proof.
  intros Hr.
  destruct (reachable_tree_mounted env s Hr) as (w & Hc & Hw & Hlt & Hrem).
  pose proof (set_focus_within_eq s w Hc Hw) as Hf.
  pose proof (reach_focus env s _ Hr Hf) as Hr'.
  exists w, (focus w s). split; [done|].
  split; [done|]. split; [done|]. split; [done|]. split; [done|].
  assert (Hidle : focused (idle (focus w s)) = Some (wid w)).
  { unfold idle. simpl. rewrite (is_mounted_single w w (focus w s) Hc).
    by rewrite Nat.eqb_refl. }
  split; [done|]. split; [|split].
  - intros r Hin. by apply (reachable_not_stale env); [apply reach_idle|].
  - intros ops s'' Hrun r Hin.
    by apply (reachable_not_stale env);
      [apply (run_reachable env ops (focus w s))|].
  - intros path s1 s2 Hrem1 Hmount r _.
    rewrite (chdir_remove_eq (focus w s) w Hc Hw) in Hrem1.
    injection Hrem1 as <-. unfold idle in Hmount. simpl in Hmount.
    injection Hmount as <-. simpl.
    destruct (reachable_focused env s Hr) as [->|(w' & Hc' & ->)]; [done|].
    rewrite Hc in Hc'. injection Hc' as <-. by rewrite Nat.eqb_refl.
Qed.

(** C10: the one message the handler of a file selection posts is a
    [Goto] whose location is a path; it posts no [Goto] with a URL. *)
Theorem file_selected_location_is_path (event : FileSelected) (s : LocalFiles) :
  (exists p, emitted event s = [Goto (LocPath p)]) /\
  Forall (fun m => exists p, location m = LocPath p) (emitted event s) /\
  (forall u, Goto (LocURL u) ∉ emitted event s).
Proof.
  rewrite emitted_eq. split; [by eexists|]. split.
  - constructor; [by eexists|constructor].
  - intros u [=]%list_elem_of_singleton.
Qed.

(** *** More on the pane *)

(** X11: in every state of a pane exactly one widget is mounted, a
    filtered tree; no widget object is mounted twice or mounted again
    after its removal, and the identities in use are all older than the
    next one to be given. *)
Theorem reachable_one_filtered_tree (env : Environ) (s : LocalFiles) :
  reachable env s ->
  (exists w, children s = [w] /\ wclass w = FilteredDirectoryTree) /\
  NoDup (wid <$> (children s ++ removed s)) /\
  Forall (fun x => wid x < next_wid s) (children s ++ removed s).
Proof.
  intros Hr.
  destruct (reachable_tree_mounted env s Hr) as (w & Hc & Hw & Hlt & Hrem).
  pose proof (reachable_removed_NoDup env s Hr) as Hnd.
  rewrite Hc. simpl. split; [by exists w|]. split.
  - apply NoDup_cons. split; [|done].
    intros (r & Heq & Hin)%list_elem_of_fmap.
    rewrite Forall_forall in Hrem. specialize (Hrem r Hin). lia.
  - constructor; [done|]. eapply Forall_impl; [exact Hrem|].
    simpl. intros r Hlt'. lia.
Qed.

(** X12: on a pane with no child (as [__init__] leaves it, before the
    toolkit has mounted what [compose] yields), [chdir] and
    [set_focus_within] both raise [NoMatches]. *)
Theorem no_tree_raises_NoMatches (path : Path) (s : LocalFiles) :
  children s = [] ->
  chdir path s = Raised NoMatches /\ set_focus_within s = Raised NoMatches.
Proof.
  intros Hc. unfold chdir, chdir_remove, set_focus_within.
  by rewrite !(query_one_none _ _ Hc).
Qed.

(** X13: between the two statements of [chdir] no tree is mounted: once
    the removal is done and before the new tree is mounted,
    [set_focus_within] and a second [chdir] raise [NoMatches]. *)
Theorem chdir_between_statements (env : Environ) (s : LocalFiles) :
  reachable env s ->
  exists s1,
    chdir_remove s = Ok s1 /\
    children s1 = [] /\
    set_focus_within s1 = Raised NoMatches /\
    (forall path, chdir path s1 = Raised NoMatches).
Proof.
  intros Hr.
  destruct (reachable_tree_mounted env s Hr) as (w & Hc & Hw & _).
  eexists. split; [by apply chdir_remove_eq|]. simpl.
  split; [done|]. split; [done|]. done.
Qed.

(** X14: [chdir] looks for a [FilteredDirectoryTree] and
    [set_focus_within] for a [DirectoryTree]; in every state of a pane
    both queries find a widget, and the same one. *)
Theorem reachable_queries_agree (env : Environ) (s : LocalFiles) :
  reachable env s ->
  exists w,
    query_one DirectoryTree s = Ok w /\
    query_one FilteredDirectoryTree s = Ok w /\
    children s = [w].
Proof.
  intros Hr.
  destruct (reachable_tree_mounted env s Hr) as (w & Hc & Hw & _).
  exists w. by rewrite !(query_one_single _ _ _ Hc Hw).
Qed.

(** X15: [set_focus_within] is idempotent: a second call changes
    nothing. *)
Theorem set_focus_within_idempotent (s s' : LocalFiles) :
  set_focus_within s = Ok s' -> set_focus_within s' = Ok s'.
Proof.
  unfold set_focus_within, query_one.
  destruct (List.filter _ (children s)) as [|w rest] eqn:Hq; [discriminate|].
  simpl. intros [= <-]. simpl. by rewrite Hq.
Qed.

(** X16: [chdir] and [set_focus_within] post no message. *)
Theorem chdir_and_focus_post_nothing (path : Path) (s s' : LocalFiles) :
  chdir path s = Ok s' \/ set_focus_within s = Ok s' ->
  posted s' = posted s.
Proof.
  intros [H|H]; [by apply (chdir_posted path)|by apply set_focus_within_posted].
Qed.

(** X17: every message a pane has posted, in any of its states, is a
    [Goto] with a path. *)
Theorem reachable_posted_are_paths (env : Environ) (s : LocalFiles) :
  reachable env s ->
  Forall (fun m => exists p, location m = LocPath p) (posted s).
Proof.
  induction 1 as [|s path s' _ IH Hch|s s' _ IH Hf|s event _ IH|s _ IH].
  - constructor.
  - by rewrite (chdir_posted _ _ _ Hch).
  - by rewrite (set_focus_within_posted _ _ Hf).
  - simpl. apply Forall_app. split; [done|].
    constructor; [by eexists|constructor].
  - destruct (idle_frame s) as (_ & _ & H3 & _). by rewrite H3.
Qed.

(** X18: in every state of a pane the focus is on the mounted tree or on
    no widget of the pane, and so never on a tree that was removed. *)
Theorem reachable_focus_not_stale (env : Environ) (s : LocalFiles) :
  reachable env s ->
  (focused s = None \/
   exists w, children s = [w] /\ focused s = Some (wid w)) /\
  (forall r, r ∈ removed s -> focused s <> Some (wid r)).
Proof.
  intros Hr. split; [by apply (reachable_focused env)|].
  intros r Hin. by apply (reachable_not_stale env).
Qed.

(** X19: no sequence of calls of [chdir], [set_focus_within] and the
    selection handler on a created pane raises, and the messages posted
    are the [Goto]s of the selections, one for each, in their order. *)
Theorem run_posts_selections (env : Environ) (ops : list Op) :
  exists s, run ops (created env) = Ok s /\ posted s = selections ops.
Proof.
  destruct (run_spec ops (created env) _ eq_refl eq_refl)
    as (s & w & Hrun & _ & _ & _ & Hp & _).
  exists s. split; [done|]. by rewrite Hp.
Qed.

(** X20: after any sequence of calls on a created pane, the mounted tree
    is the widget object the last [chdir] constructed: it has the path
    that call was given and the identity that was fresh at that call, and
    it was neither mounted nor removed before; every tree mounted before
    it is among the removed ones, the newest first.  Without a [chdir]
    the mounted tree is still the one of [compose].  The trees are
    numbered in the order of their construction, the tree of [compose]
    being number 0. *)
Theorem run_root_is_last_chdir (env : Environ) (ops : list Op) :
  exists s w,
    run ops (created env) = Ok s /\
    children s = [w] /\
    w = {| wid := chdirs ops; wclass := FilteredDirectoryTree;
           wpath := last_root ops (PStr (or_str (env "HOME") ".")) |} /\
    wid <$> removed s = rev (seq 0 (chdirs ops)) /\
    (chdirs ops = 0 -> children s = children (created env)) /\
    (forall pre path post,
       ops = pre ++ OpChdir path :: post -> chdirs post = 0 ->
       exists s1,
         run pre (created env) = Ok s1 /\
         w = {| wid := next_wid s1; wclass := FilteredDirectoryTree;
                wpath := PPath path |} /\
         (w ∉ children s1) /\ (w ∉ removed s1)).
Proof.
  destruct (run_tree ops (created env) _ eq_refl eq_refl eq_refl)
    as (s & Hrun & Hc & Hrem & Hn).
  simpl in Hc, Hrem. rewrite Nat.add_0_r in Hc. rewrite app_nil_r in Hrem.
  eexists s, _. split; [done|]. split; [exact Hc|]. split; [done|].
  split; [done|]. split.
  - intros H0. rewrite Hc, H0, (last_root_no_chdir _ _ H0). by rewrite created_eq.
  - intros pre path post -> Hpost.
    destruct (run_tree pre (created env) _ eq_refl eq_refl eq_refl)
      as (s1 & Hrun1 & Hc1 & Hrem1 & Hn1).
    simpl in Hc1, Hrem1, Hn1.
    rewrite Nat.add_0_r in Hc1, Hn1. rewrite app_nil_r in Hrem1.
    exists s1. split; [done|].
    rewrite chdirs_app, last_root_app. simpl.
    rewrite Hpost, (last_root_no_chdir _ _ Hpost), Hn1.
    replace (chdirs pre + 1) with (S (chdirs pre)) by lia.
    split; [done|]. split.
    + rewrite Hc1, list_elem_of_singleton. intros [= H]. lia.
    + intros Hin. apply (list_elem_of_fmap_2 wid) in Hin.
      rewrite Hrem1 in Hin. simpl in Hin.
      apply list_elem_of_In, in_rev, in_seq in Hin. lia.
Qed.

(** X21: every [chdir] constructs one tree and removes one: after a
    sequence of calls on a created pane, as many trees were removed as
    there were calls of [chdir], and one more was constructed. *)
Theorem run_constructs_one_tree_per_chdir (env : Environ) (ops : list Op) :
  exists s,
    run ops (created env) = Ok s /\
    length (removed s) = chdirs ops /\
    next_wid s = S (chdirs ops).
Proof.
  destruct (run_spec ops (created env) _ eq_refl eq_refl)
    as (s & w & Hrun & _ & _ & _ & _ & Hr & Hn).
  exists s. simpl in *. split; [done|]. split; lia.
Qed.

(** X22: [HOME] set to the empty string is treated as [HOME] unset: the
    pane is created with the same tree, constructed with [.]. *)
Theorem compose_empty_HOME_as_unset (env : Environ) :
  env "HOME" = Some EmptyString -> created env = created (fun _ => None).
Proof. intros H. rewrite !created_eq. by rewrite H. Qed.

(** *** The pane on sample inputs *)

Ltac reach_pane_docs :=
  apply (reach_chdir Sample.env Sample.pane (of_str "/docs") Sample.pane_docs);
  [exact (reach_created Sample.env) | vm_compute; reflexivity].

Lemma chdir_replaces_tree_witness :
  exists old new s',
    children Sample.pane = [old] /\
    chdir (of_str "/docs") Sample.pane = Ok s' /\
    children s' = [new] /\
    wclass new = FilteredDirectoryTree /\
    wpath new = PPath (of_str "/docs") /\
    (old ∉ children s') /\
    old ∈ removed s' /\
    (forall r, r ∈ removed s' -> wid r <> wid new) /\
    length (List.filter (fun w => issubclass (wclass w) DirectoryTree)
                        (children s')) = 1.
Proof.
  apply (chdir_replaces_tree Sample.env Sample.pane (of_str "/docs")).
  exact (reach_created Sample.env).
Defined.

Lemma set_focus_within_targets_mounted_tree_witness :
  exists w s',
    set_focus_within Sample.pane_docs = Ok s' /\
    children Sample.pane_docs = [w] /\
    children s' = [w] /\
    focus_pending s' = Some w /\
    focused s' = focused Sample.pane_docs /\
    focused (idle s') = Some (wid w) /\
    (forall r, r ∈ removed (idle s') -> focused (idle s') <> Some (wid r)) /\
    (forall ops s'', run ops s' = Ok s'' ->
       forall r, r ∈ removed s'' -> focused s'' <> Some (wid r)) /\
    (forall path s1 s2,
       chdir_remove s' = Ok s1 -> chdir_mount path (idle s1) = Ok s2 ->
       forall r, r ∈ removed s2 -> focused s2 <> Some (wid r)).
Proof.
  apply (set_focus_within_targets_mounted_tree Sample.env Sample.pane_docs).
  reach_pane_docs.
Defined.

Lemma reachable_one_filtered_tree_witness :
  (exists w, children Sample.pane_docs = [w] /\
             wclass w = FilteredDirectoryTree) /\
  NoDup (wid <$> (children Sample.pane_docs ++ removed Sample.pane_docs)) /\
  Forall (fun x => wid x < next_wid Sample.pane_docs)
         (children Sample.pane_docs ++ removed Sample.pane_docs).
Proof.
  apply (reachable_one_filtered_tree Sample.env Sample.pane_docs).
  reach_pane_docs.
Defined.

Lemma no_tree_raises_NoMatches_witness :
  chdir (of_str "/docs") LocalFiles_init = Raised NoMatches /\
  set_focus_within LocalFiles_init = Raised NoMatches.
Proof.
  apply (no_tree_raises_NoMatches (of_str "/docs") LocalFiles_init).
  reflexivity.
Defined.

Lemma chdir_between_statements_witness :
  exists s1,
    chdir_remove Sample.pane = Ok s1 /\
    children s1 = [] /\
    set_focus_within s1 = Raised NoMatches /\
    (forall path, chdir path s1 = Raised NoMatches).
Proof.
  apply (chdir_between_statements Sample.env Sample.pane).
  exact (reach_created Sample.env).
Defined.

Lemma reachable_queries_agree_witness :
  exists w,
    query_one DirectoryTree Sample.pane_docs = Ok w /\
    query_one FilteredDirectoryTree Sample.pane_docs = Ok w /\
    children Sample.pane_docs = [w].
Proof.
  apply (reachable_queries_agree Sample.env Sample.pane_docs).
  reach_pane_docs.
Defined.

Lemma set_focus_within_idempotent_witness :
  set_focus_within Sample.pane_focused = Ok Sample.pane_focused.
Proof.
  apply (set_focus_within_idempotent Sample.pane Sample.pane_focused).
  vm_compute. reflexivity.
Defined.

Lemma chdir_and_focus_post_nothing_witness :
  posted Sample.pane_docs = posted Sample.pane.
Proof.
  apply (chdir_and_focus_post_nothing (of_str "/docs")
           Sample.pane Sample.pane_docs).
  left. vm_compute. reflexivity.
Defined.

Lemma reachable_posted_are_paths_witness :
  Forall (fun m => exists p, location m = LocPath p)
    (posted (snd (on_directory_tree_file_selected
                    Sample.select_notes Sample.pane_docs))).
Proof.
  apply (reachable_posted_are_paths Sample.env).
  apply reach_selected. reach_pane_docs.
Defined.

Lemma reachable_focus_not_stale_witness :
  (focused Sample.pane_docs = None \/
   exists w, children Sample.pane_docs = [w] /\
             focused Sample.pane_docs = Some (wid w)) /\
  (forall r, r ∈ removed Sample.pane_docs ->
             focused Sample.pane_docs <> Some (wid r)).
Proof.
  apply (reachable_focus_not_stale Sample.env Sample.pane_docs).
  reach_pane_docs.
Defined.

Lemma compose_empty_HOME_as_unset_witness :
  created (Sample.home_env (Some EmptyString)) = created (fun _ => None).
Proof.
  apply (compose_empty_HOME_as_unset (Sample.home_env (Some EmptyString))).
  vm_compute. reflexivity.
Defined.
